(** * Task run futures (prefect/futures.py)

    A shallow embedding of [PrefectFuture] and of the module body that
    defines it and the two resolution entry points
    [resolve_futures_to_data] and [resolve_futures_to_states].

    Python objects live in a heap and are named by their location, so that
    object identity, aliasing and the in-place update of [_final_state] are
    visible.  The two collaborators of a future (the Orion client and the
    executor) are oracles of a [World]; every call to one of them is recorded
    in a trace, and the length of the trace is the logical time at which the
    oracle is asked, so a world may answer differently from one call to the
    next.  The [sync_compatible] bridge is not modelled; coroutines run to
    completion in program order.

    The module body is modelled as far as names go: which names each
    top-level statement reads when it runs (bases, decorators and the
    annotations of a signature are evaluated then) and which name it binds. *)

From Stdlib Require Import ZArith NArith QArith String Bool Lia.
From stdpp Require Import base list strings.

Open Scope string_scope.
Open Scope list_scope.
Open Scope nat_scope.

(** ** Data model *)

(** [uuid.UUID]: a 128-bit integer. *)
Definition UUID := N.

(** Heap locations of [PrefectFuture] objects. *)
Definition loc := nat.

(** The collaborators are shared objects; a future holds references. *)
Definition ClientRef := nat.
Definition ExecutorRef := nat.

(** [timeout] is a number of seconds, passed through untouched. *)
Definition Timeout := Q.

(** Modelled from the spec: [prefect.orion.schemas.states] is not part of the
    sources at hand.  A status is a tagged value with the variants Pending,
    Running, Completed, Failed and Cancelled; a terminal status carries a
    payload that the future forwards without interpreting it. *)
Inductive StateType := PENDING | RUNNING | COMPLETED | FAILED | CANCELLED.

Record DataDocument := { encoding : string; blob : string }.

Record State := { type : StateType; data : option DataDocument }.

Definition is_completed (st : State) : bool :=
  match type st with COMPLETED => true | _ => false end.

Definition is_failed (st : State) : bool :=
  match type st with FAILED => true | _ => false end.

Definition is_cancelled (st : State) : bool :=
  match type st with CANCELLED => true | _ => false end.

(** "Terminal" = Completed, Failed, Cancelled. *)
Definition is_terminal (st : State) : bool :=
  is_completed st || is_failed st || is_cancelled st.

(** What the client hands back for a known run. *)
Record TaskRun := { state : State }.

(** Truth value of an optional object, as [if x:] and [not x] take it: [None]
    is false, and an instance of a class that defines neither [__bool__] nor
    [__len__] (states, data documents, task runs) is true. *)
Definition truthy {A : Type} (x : option A) : bool :=
  match x with Some _ => true | None => false end.

Record PrefectFuture := {
  run_id : UUID;
  _client : ClientRef;
  _final_state : option State;
  _exception : option string;
  _executor : ExecutorRef
}.

Definition with_final_state (v : option State) (f : PrefectFuture) : PrefectFuture :=
  {| run_id := run_id f;
     _client := _client f;
     _final_state := v;
     _exception := _exception f;
     _executor := _executor f |}.

(** ** Effects *)

Inductive Exception :=
| RuntimeError (msg : string)
| NameError (name : string)
| DanglingReference (l : loc).

Inductive Event :=
| EvReadTaskRun (c : ClientRef) (run : UUID)
| EvExecutorWait (e : ExecutorRef) (run : UUID) (timeout : option Timeout).

(** The behaviour of the collaborators.  [store_reply c t run] is what client
    [c] answers to [read_task_run(run)] at time [t]; [executor_reply e t f tm]
    is what executor [e] answers to [wait(f, tm)] at time [t], [None] when the
    timeout elapsed first. *)
Record World := {
  store_reply : ClientRef → nat → UUID → option TaskRun;
  executor_reply : ExecutorRef → nat → PrefectFuture → option Timeout → option State
}.

Record St := { heap : list PrefectFuture; trace : list Event }.

Definition now (s : St) : nat := length (trace s).

Inductive Res (A : Type) :=
| Ok (a : A)
| Raise (e : Exception).
Arguments Ok {A} a.
Arguments Raise {A} e.

(** A computation reads the world, updates the state and returns or raises;
    the state survives an exception, as in Python. *)
Definition M (A : Type) : Type := World → St → Res A * St.

#[export] Instance M_ret : MRet M := λ A a _ s, (Ok a, s).

#[export] Instance M_bind : MBind M := λ A B k m w s,
  match m w s with
  | (Ok a, s') => k a w s'
  | (Raise e, s') => (Raise e, s')
  end.

Definition raise {A : Type} (e : Exception) : M A := λ _ s, (Raise e, s).

Definition deref (l : loc) : M PrefectFuture := λ _ s,
  match heap s !! l with
  | Some f => (Ok f, s)
  | None => (Raise (DanglingReference l), s)
  end.

(** [self.x] *)
Definition attr {A : Type} (x : PrefectFuture → A) (self : loc) : M A :=
  f ← deref self; mret (x f).

(** [self._final_state = v] *)
Definition set_final_state (self : loc) (v : option State) : M unit := λ _ s,
  match heap s !! self with
  | Some f =>
      (Ok tt, {| heap := <[self := with_final_state v f]> (heap s); trace := trace s |})
  | None => (Raise (DanglingReference self), s)
  end.

Definition alloc (f : PrefectFuture) : M loc := λ _ s,
  (Ok (length (heap s)), {| heap := heap s ++ [f]; trace := trace s |}).

Definition emit (e : Event) (s : St) : St :=
  {| heap := heap s; trace := trace s ++ [e] |}.

(** [await client.read_task_run(run)] *)
Definition read_task_run (c : ClientRef) (run : UUID) : M (option TaskRun) := λ w s,
  (Ok (store_reply w c (now s) run), emit (EvReadTaskRun c run) s).

(** [await executor.wait(future, timeout)] *)
Definition executor_wait (e : ExecutorRef) (future : loc) (timeout : option Timeout)
  : M (option State) := λ w s,
  match heap s !! future with
  | Some f =>
      (Ok (executor_reply w e (now s) f timeout),
       emit (EvExecutorWait e (run_id f) timeout) s)
  | None => (Raise (DanglingReference future), s)
  end.

(** ** PrefectFuture *)

Definition __init__ (run_id : UUID) (client : ClientRef) (executor : ExecutorRef)
    (_final_state : option State) : M loc :=
  alloc {| run_id := run_id;
           _client := client;
           _final_state := _final_state;
           _exception := None;
           _executor := executor |}.

Definition get_state (self : loc) : M State :=
  client ← attr _client self;
  run ← attr run_id self;
  task_run ← read_task_run client run;
  match task_run with
  | None => raise (RuntimeError "Future has no associated task run in the server.")
  | Some task_run => mret (state task_run)
  end.

Definition wait (self : loc) (timeout : option Timeout) : M (option State) :=
  final ← attr _final_state self;
  if truthy final then attr _final_state self
  else
    st ← get_state self;
    if (is_completed st || is_failed st) && truthy (data st) then mret (Some st)
    else
      executor ← attr _executor self;
      result ← executor_wait executor self timeout;
      _ ← set_final_state self result;
      attr _final_state self.

(** [hash] of a non-negative Python integer (CPython, 64-bit): reduction
    modulo the Mersenne prime 2^61 - 1. *)
Definition hash_int (n : N) : Z := (Z.of_N n mod (2 ^ 61 - 1))%Z.

(** [UUID.__hash__] hashes the integer value. *)
Definition hash_UUID (u : UUID) : Z := hash_int u.

Definition __hash__ (self : loc) : M Z :=
  run ← attr run_id self;
  mret (hash_UUID run).

(** The class defines no [__eq__]: [==] on futures is the one inherited from
    [object], which compares identities. *)
Definition __eq__ (self other : loc) : bool := Nat.eqb self other.

Definition not_found : Exception :=
  RuntimeError "Future has no associated task run in the server.".

(** The test of line 114: the status read from the store is handed back as it
    is when it is completed or failed and has data attached. *)
Definition ready (st : State) : bool :=
  (is_completed st || is_failed st) && truthy (data st).

(** What the executor is asked when [wait] falls through to it: one tick after
    the store was read. *)
Definition delegated (w : World) (s : St) (f : PrefectFuture)
    (timeout : option Timeout) : option State :=
  executor_reply w (_executor f) (S (now s)) f timeout.

(** A caller that makes the calls one after the other and keeps every outcome,
    the exceptions included. *)
Fixpoint try_each {A B : Type} (f : A → M B) (xs : list A) (w : World) (s : St)
  : list (Res B) * St :=
  match xs with
  | [] => ([], s)
  | x :: xs' =>
      let '(r, s1) := f x w s in
      let '(rs, s2) := try_each f xs' w s1 in
      (r :: rs, s2)
  end.

(** The calls a holder of a future can make on it. *)
Inductive Call :=
| CallWait (timeout : option Timeout)
| CallGetState.

Definition perform (self : loc) (c : Call) : M (option State) :=
  match c with
  | CallWait timeout => wait self timeout
  | CallGetState => st ← get_state self; mret (Some st)
  end.

(** ** The module body *)

(** A top-level statement, as far as names go.  [reads] lists, in the order
    of evaluation, the names the statement looks up when it runs: for an
    assignment the names of its right-hand side; for a class its bases and,
    method by method, the decorators and the annotations of the signature;
    for a function its decorators and the annotations of its signature.  The
    module has no [from __future__ import annotations], so an annotation is an
    expression that is evaluated when the [def] runs; an annotation written
    as a string is a constant and reads nothing, and the body of a function
    is not run by its [def]. *)
Inductive Stmt :=
| Import (names : list string)
| IfFalse (reads : list string)
| Assign (target : string) (reads : list string)
| ClassDef (name : string) (reads : list string)
| FunctionDef (name : string) (reads : list string).

(** The built-in names that the module body reads. *)
Definition builtins : list string := ["float"; "int"].

(** A name is looked up in the globals of the module, then in the builtins. *)
Definition is_bound (globals : list string) (x : string) : bool :=
  existsb (String.eqb x) globals || existsb (String.eqb x) builtins.

(** The first of [reads] that is not bound, if any. *)
Fixpoint first_unbound (globals : list string) (reads : list string) : option string :=
  match reads with
  | [] => None
  | x :: reads' => if is_bound globals x then first_unbound globals reads' else Some x
  end.

(** Run one statement: look the names up, raise [NameError] at the first
    that is missing, else bind.  [IfFalse] is an [if] whose condition is
    false at run time: the condition is read and the body is skipped. *)
Definition exec_stmt (globals : list string) (st : Stmt) : Res (list string) :=
  match st with
  | Import names => Ok (globals ++ names)
  | IfFalse reads =>
      match first_unbound globals reads with
      | Some x => Raise (NameError x)
      | None => Ok globals
      end
  | Assign name reads | ClassDef name reads | FunctionDef name reads =>
      match first_unbound globals reads with
      | Some x => Raise (NameError x)
      | None => Ok (globals ++ [name])
      end
  end.

(** Run the statements in order; the first exception ends the run and leaves
    the names bound so far. *)
Fixpoint exec_module (globals : list string) (body : list Stmt)
  : Res unit * list string :=
  match body with
  | [] => (Ok tt, globals)
  | st :: body' =>
      match exec_stmt globals st with
      | Ok globals' => exec_module globals' body'
      | Raise e => (Raise e, globals)
      end
  end.

(** Lines 35-131.  The bases [Generic[R]]; [__init__] with the annotations
    [UUID], [OrionClient], the string ["BaseExecutor"] and [State[R]]; the two
    [@overload] stubs of [wait]; [wait] and [get_state] under
    [@sync_compatible]; [__hash__]. *)
Definition class_PrefectFuture : Stmt :=
  ClassDef "PrefectFuture"
    ["Generic"; "R";
     "UUID"; "OrionClient"; "State"; "R";
     "overload"; "float"; "Optional"; "State"; "R";
     "overload"; "State"; "R";
     "sync_compatible";
     "sync_compatible"; "State"; "R";
     "int"].

(** Line 134:
    [async def resolve_futures_to_data(expr: Union[PrefectFuture[R], Any]) -> Union[R, Any]] *)
Definition def_resolve_futures_to_data : Stmt :=
  FunctionDef "resolve_futures_to_data"
    ["Union"; "PrefectFuture"; "R"; "Any"; "Union"; "R"; "Any"].

(** Lines 154-156:
    [async def resolve_futures_to_states(expr: Union[PrefectFuture[R], Any]) -> Union[State, Any]] *)
Definition def_resolve_futures_to_states : Stmt :=
  FunctionDef "resolve_futures_to_states"
    ["Union"; "PrefectFuture"; "R"; "Any"; "Union"; "State"; "Any"].

(** The body of the module, lines 4-173. *)
Definition futures_module : list Stmt :=
  [Import ["OrderedDict"];
   Import ["IteratorABC"];
   Import ["fields"; "is_dataclass"];
   Import ["partial"];
   Import ["TYPE_CHECKING"; "Any"; "Awaitable"; "Callable"; "Optional"; "overload";
           "cast"; "TypeVar"; "Generic"];
   Import ["Mock"];
   Import ["UUID"];
   Import ["prefect"];
   Import ["OrionClient"];
   Import ["State"];
   Import ["sync_compatible"];
   Import ["visit_collection"];
   IfFalse ["TYPE_CHECKING"];
   Assign "R" ["TypeVar"];
   class_PrefectFuture;
   def_resolve_futures_to_data;
   def_resolve_futures_to_states].

(** The names bound when the class statement has run. *)
Definition globals_after_class : list string :=
  ["OrderedDict"; "IteratorABC"; "fields"; "is_dataclass"; "partial";
   "TYPE_CHECKING"; "Any"; "Awaitable"; "Callable"; "Optional"; "overload";
   "cast"; "TypeVar"; "Generic"; "Mock"; "UUID"; "prefect"; "OrionClient"; "State";
   "sync_compatible"; "visit_collection"; "R"; "PrefectFuture"].

(** ** A small world to run the definitions in *)

Definition document (b : string) : DataDocument := {| encoding := "json"; blob := b |}.

Definition completed (b : string) : State := {| type := COMPLETED; data := Some (document b) |}.
Definition failed (b : string) : State := {| type := FAILED; data := Some (document b) |}.
Definition cancelled (b : string) : State := {| type := CANCELLED; data := Some (document b) |}.
Definition running : State := {| type := RUNNING; data := None |}.

(** Run 1 is completed, runs 2 and 5 have failed, run 3 is still running and
    will complete (an untimed wait gets the result, a timed one gives up),
    run 4 was cancelled; no other run is known. *)
Definition demo_world : World :=
  {| store_reply := λ _ _ run,
       match run with
       | 1%N => Some {| state := completed "41" |}
       | 2%N => Some {| state := failed "boom" |}
       | 3%N => Some {| state := running |}
       | 4%N => Some {| state := cancelled "stop" |}
       | 5%N => Some {| state := failed "bang" |}
       | _ => None
       end;
     executor_reply := λ _ _ f timeout,
       match run_id f, timeout with
       | 3%N, None => Some (completed "late")
       | 4%N, _ => Some (cancelled "stop")
       | _, _ => None
       end |}.

Definition fresh (run : UUID) : PrefectFuture :=
  {| run_id := run; _client := 0; _final_state := None; _exception := None; _executor := 0 |}.

(** A future for the unknown run 9 that was handed its final state. *)
Definition resolved_state : St :=
  {| heap := [with_final_state (Some (completed "41")) (fresh 9%N)]; trace := [] |}.

(** Futures for runs 1, 2, 3, 4, for the unknown run 9 and for run 5, at
    locations 0 to 5. *)
Definition demo_state : St :=
  {| heap := [fresh 1%N; fresh 2%N; fresh 3%N; fresh 4%N; fresh 9%N; fresh 5%N];
     trace := [] |}.

(** A store that changes its mind: it knows no run at time 0, reports the
    run as completed at time 1 and as failed from then on; the executor
    never answers. *)
Definition changing_world : World :=
  {| store_reply := λ _ t _,
       match t with
       | 0 => None
       | 1 => Some {| state := completed "first" |}
       | _ => Some {| state := failed "second" |}
       end;
     executor_reply := λ _ _ _ _, None |}.

(** One unresolved future, at time 0 and at time 1. *)
Definition lone_state : St := {| heap := [fresh 1%N]; trace := [] |}.
Definition lone_state_later : St :=
  {| heap := [fresh 1%N]; trace := [EvReadTaskRun 0 1%N] |}.

(** Two futures built for the same run 3. *)
Definition twin_state : St := {| heap := [fresh 3%N; fresh 3%N]; trace := [] |}.

(** ** Running the handle operations *)

Section Running.
Context (w : World).

Lemma bind_run {A B : Type} (m : M A) (k : A → M B) (s : St) :
  (m ≫= k) w s =
    match m w s with
    | (Ok a, s') => k a w s'
    | (Raise e, s') => (Raise e, s')
    end.
Proof. reflexivity. Qed.

Lemma now_emit (e : Event) (s : St) : now (emit e s) = S (now s).
Proof. unfold now, emit. cbn. rewrite length_app. cbn. lia. Qed.

Lemma attr_run {A : Type} (x : PrefectFuture → A) (s : St) (self : loc)
    (f : PrefectFuture) :
  heap s !! self = Some f → attr x self w s = (Ok (x f), s).
Proof. intros H. unfold attr, deref. rewrite bind_run, H. reflexivity. Qed.

Lemma executor_wait_run (s : St) (self : loc) (f : PrefectFuture)
    (e : ExecutorRef) (timeout : option Timeout) :
  heap s !! self = Some f →
  executor_wait e self timeout w s =
    (Ok (executor_reply w e (now s) f timeout),
     emit (EvExecutorWait e (run_id f) timeout) s).
Proof. intros H. unfold executor_wait. rewrite H. reflexivity. Qed.

Lemma set_final_state_run (s : St) (self : loc) (f : PrefectFuture)
    (v : option State) :
  heap s !! self = Some f →
  set_final_state self v w s =
    (Ok tt, {| heap := <[self := with_final_state v f]> (heap s); trace := trace s |}).
Proof. intros H. unfold set_final_state. rewrite H. reflexivity. Qed.

Lemma get_state_run (s : St) (self : loc) (f : PrefectFuture) :
  heap s !! self = Some f →
  get_state self w s =
    (match store_reply w (_client f) (now s) (run_id f) with
     | Some task_run => Ok (state task_run)
     | None => Raise not_found
     end,
     emit (EvReadTaskRun (_client f) (run_id f)) s).
Proof.
  intros H. unfold get_state.
  rewrite bind_run, (attr_run _ _ _ _ H).
  rewrite bind_run, (attr_run _ _ _ _ H).
  rewrite bind_run. unfold read_task_run.
  destruct (store_reply w (_client f) (now s) (run_id f)); reflexivity.
Qed.

Lemma wait_hit (s : St) (self : loc) (f : PrefectFuture) (st : State)
    (timeout : option Timeout) :
  heap s !! self = Some f → _final_state f = Some st →
  wait self timeout w s = (Ok (Some st), s).
Proof.
  intros H Hc. unfold wait.
  rewrite bind_run, (attr_run _ _ _ _ H), Hc. cbn [truthy].
  rewrite (attr_run _ _ _ _ H), Hc. reflexivity.
Qed.

Lemma wait_miss (s : St) (self : loc) (f : PrefectFuture)
    (timeout : option Timeout) :
  heap s !! self = Some f → _final_state f = None →
  wait self timeout w s =
    match store_reply w (_client f) (now s) (run_id f) with
    | None => (Raise not_found, emit (EvReadTaskRun (_client f) (run_id f)) s)
    | Some task_run =>
        if ready (state task_run)
        then (Ok (Some (state task_run)),
              emit (EvReadTaskRun (_client f) (run_id f)) s)
        else
          let r := delegated w s f timeout in
          (Ok r,
           {| heap := <[self := with_final_state r f]> (heap s);
              trace := (trace s ++ [EvReadTaskRun (_client f) (run_id f)])
                         ++ [EvExecutorWait (_executor f) (run_id f) timeout] |})
    end.
Proof.
  intros H Hc. unfold wait.
  rewrite bind_run, (attr_run _ _ _ _ H), Hc. cbn [truthy].
  rewrite bind_run, (get_state_run _ _ _ H).
  destruct (store_reply w (_client f) (now s) (run_id f)) as [task_run|];
    [|reflexivity].
  fold (ready (state task_run)).
  destruct (ready (state task_run)); [reflexivity|].
  set (s1 := emit (EvReadTaskRun (_client f) (run_id f)) s).
  assert (H1 : heap s1 !! self = Some f) by exact H.
  rewrite bind_run, (attr_run _ _ _ _ H1).
  rewrite bind_run, (executor_wait_run _ _ _ _ _ H1).
  set (s2 := emit _ s1).
  assert (H2 : heap s2 !! self = Some f) by exact H.
  rewrite bind_run, (set_final_state_run _ _ _ _ H2).
  unfold attr, deref. rewrite bind_run. cbn [heap].
  rewrite list_lookup_insert_eq by (eapply lookup_lt_Some; exact H).
  unfold delegated. subst s2 s1. rewrite now_emit.
  reflexivity.
Qed.

End Running.

(** ** The cache *)

(** C1: once [_final_state] holds a status, every later [wait], whatever its
    timeout, returns that status and leaves the state as it was: the trace
    does not grow, so neither the store nor the executor is asked. *)
Theorem wait_serves_from_cache (w : World) (s : St) (self : loc) (f : PrefectFuture)
    (st : State) (timeouts : list (option Timeout)) :
  heap s !! self = Some f → _final_state f = Some st →
  try_each (wait self) timeouts w s = (map (λ _, Ok (Some st)) timeouts, s).
Proof.
  intros H Hc. induction timeouts as [|timeout timeouts IH]; [reflexivity|].
  cbn [try_each map]. rewrite (wait_hit w s self f st timeout H Hc), IH.
  reflexivity.
Qed.

Lemma wait_serves_from_cache_witness :
  heap resolved_state !! 0 = Some (with_final_state (Some (completed "41")) (fresh 9%N))
  ∧ _final_state (with_final_state (Some (completed "41")) (fresh 9%N))
    = Some (completed "41")
  ∧ try_each (wait 0) [None; Some (1 # 2)%Q; None] demo_world resolved_state
    = ([Ok (Some (completed "41")); Ok (Some (completed "41")); Ok (Some (completed "41"))],
       resolved_state).
Proof.
  split; [reflexivity|]. split; [reflexivity|].
  apply (wait_serves_from_cache demo_world resolved_state 0
           (with_final_state (Some (completed "41")) (fresh 9%N)) (completed "41")
           [None; Some (1 # 2)%Q; None]); reflexivity.
Defined.

(** ** get_state *)

(** C6: [get_state] asks the store once, by the run id, and returns the
    status the store reports or fails with the run-not-found error; whatever
    [_final_state] holds, the heap is left as it was and the executor is not
    asked: the trace grows by the one store query. *)
Theorem get_state_reads_the_store (w : World) (s : St) (self : loc) (f : PrefectFuture) :
  heap s !! self = Some f →
  get_state self w s =
    (match store_reply w (_client f) (now s) (run_id f) with
     | Some task_run => Ok (state task_run)
     | None => Raise (RuntimeError "Future has no associated task run in the server.")
     end,
     {| heap := heap s; trace := trace s ++ [EvReadTaskRun (_client f) (run_id f)] |}).
Proof. intros H. exact (get_state_run w s self f H). Qed.

Lemma get_state_reads_the_store_witness :
  heap resolved_state !! 0 = Some (with_final_state (Some (completed "41")) (fresh 9%N))
  ∧ get_state 0 demo_world resolved_state
    = (Raise (RuntimeError "Future has no associated task run in the server."),
       {| heap := heap resolved_state; trace := [EvReadTaskRun 0 9%N] |})
  ∧ get_state 2 demo_world demo_state
    = (Ok running, {| heap := heap demo_state; trace := [EvReadTaskRun 0 3%N] |}).
Proof.
  split; [reflexivity|]. split.
  - apply (get_state_reads_the_store demo_world resolved_state 0
             (with_final_state (Some (completed "41")) (fresh 9%N))).
    reflexivity.
  - apply (get_state_reads_the_store demo_world demo_state 2 (fresh 3%N)).
    reflexivity.
Defined.

(** ** The answer of the store *)

Lemma with_final_state_same (f : PrefectFuture) :
  with_final_state (_final_state f) f = f.
Proof. destruct f; reflexivity. Qed.

Lemma not_terminal_not_ready (st : State) : is_terminal st = false → ready st = false.
Proof.
  unfold is_terminal, ready. intros H.
  apply orb_false_iff in H as [H _]. rewrite H. reflexivity.
Qed.

(** Run 1 of the small world is completed and has data: [wait] hands the
    status back after the one store query and writes nothing. *)
Example wait_completed_run :
  wait 0 None demo_world demo_state
  = (Ok (Some (completed "41")),
     {| heap := heap demo_state; trace := [EvReadTaskRun 0 1%N] |}).
Proof. reflexivity. Qed.

(** Run 4 of the small world is cancelled and has data: line 114 tests for
    completed and failed only, so [wait] goes on to the executor. *)
Example wait_cancelled_run :
  wait 3 None demo_world demo_state
  = (Ok (Some (cancelled "stop")),
     {| heap := <[3 := with_final_state (Some (cancelled "stop")) (fresh 4%N)]>
                  (heap demo_state);
        trace := [EvReadTaskRun 0 4%N; EvExecutorWait 0 4%N None] |}).
Proof. reflexivity. Qed.

(** C2, as stated, fails: for the future of the completed run 1 the status
    read from the store is terminal and has data, [wait] returns it, and
    [_final_state] is still empty afterwards. *)
Lemma wait_ready_status_is_not_cached :
  ¬ (∀ (w : World) (s : St) (self : loc) (f : PrefectFuture)
       (timeout : option Timeout) (task_run : TaskRun),
       heap s !! self = Some f → _final_state f = None →
       store_reply w (_client f) (now s) (run_id f) = Some task_run →
       is_terminal (state task_run) = true →
       truthy (data (state task_run)) = true →
       ∃ s', wait self timeout w s = (Ok (Some (state task_run)), s')
             ∧ (∃ f', heap s' !! self = Some f'
                      ∧ _final_state f' = Some (state task_run))
             ∧ trace s' = trace s ++ [EvReadTaskRun (_client f) (run_id f)]).
Proof.
  intros claim.
  destruct (claim demo_world demo_state 0 (fresh 1%N) None
              {| state := completed "41" |} eq_refl eq_refl eq_refl eq_refl eq_refl)
    as (s' & Hwait & (f' & Hf' & Hcache) & _).
  rewrite wait_completed_run in Hwait.
  injection Hwait as <-. cbn in Hf'.
  injection Hf' as <-. discriminate Hcache.
Qed.

(** C2, amended: with an empty cache, when the one store query returns a
    status that is completed or failed and has data, [wait] returns that
    status and the executor is not asked: the trace grows by the store query
    alone. *)
Theorem wait_returns_ready_status (w : World) (s : St) (self : loc) (f : PrefectFuture)
    (timeout : option Timeout) (task_run : TaskRun) :
  heap s !! self = Some f → _final_state f = None →
  store_reply w (_client f) (now s) (run_id f) = Some task_run →
  is_completed (state task_run) || is_failed (state task_run) = true →
  truthy (data (state task_run)) = true →
  ∃ s', wait self timeout w s = (Ok (Some (state task_run)), s')
        ∧ trace s' = trace s ++ [EvReadTaskRun (_client f) (run_id f)].
Proof.
  intros H Hc Hstore Hterm Hdata.
  rewrite (wait_miss w s self f timeout H Hc), Hstore.
  unfold ready. rewrite Hterm, Hdata. cbn.
  eexists. split; reflexivity.
Qed.

Lemma wait_returns_ready_status_witness :
  heap demo_state !! 1 = Some (fresh 2%N)
  ∧ _final_state (fresh 2%N) = None
  ∧ store_reply demo_world 0 (now demo_state) 2%N = Some {| state := failed "boom" |}
  ∧ is_completed (failed "boom") || is_failed (failed "boom") = true
  ∧ truthy (data (failed "boom")) = true
  ∧ ∃ s', wait 1 (Some (1 # 2)%Q) demo_world demo_state = (Ok (Some (failed "boom")), s')
          ∧ trace s' = trace demo_state ++ [EvReadTaskRun 0 2%N].
Proof.
  repeat (split; [reflexivity|]).
  apply (wait_returns_ready_status demo_world demo_state 1 (fresh 2%N)
           (Some (1 # 2)%Q) {| state := failed "boom" |}); reflexivity.
Defined.

(** ** Timeouts *)

(** C4: with an empty cache and a run that the store reports as not terminal,
    a [wait] whose timeout elapses first (the executor answers nothing)
    returns [None], not an error and not a status, and leaves the heap as it
    was, the future unresolved.  Any later [wait] on it, with or without a
    timeout, returns the terminal status as soon as the store has it ready or
    the executor delivers it. *)
Theorem wait_timeout_leaves_unresolved (w : World) (s : St) (self : loc)
    (f : PrefectFuture) (tm : Timeout) (task_run : TaskRun) :
  heap s !! self = Some f → _final_state f = None →
  store_reply w (_client f) (now s) (run_id f) = Some task_run →
  is_terminal (state task_run) = false →
  delegated w s f (Some tm) = None →
  ∃ s', wait self (Some tm) w s = (Ok None, s')
        ∧ heap s' = heap s
        ∧ ∀ (more : list Event) (timeout' : option Timeout) (task_run' : TaskRun)
            (st : State),
            let later := {| heap := heap s'; trace := trace s' ++ more |} in
            store_reply w (_client f) (now later) (run_id f) = Some task_run' →
            (ready (state task_run') = true ∧ state task_run' = st)
            ∨ (ready (state task_run') = false
               ∧ delegated w later f timeout' = Some st) →
            ∃ s'', wait self timeout' w later = (Ok (Some st), s'').
Proof.
  intros H Hc Hstore Hterm Hexec.
  rewrite (wait_miss w s self f (Some tm) H Hc), Hstore.
  rewrite (not_terminal_not_ready _ Hterm). cbn zeta. rewrite Hexec.
  assert (Hheap : <[self := with_final_state None f]> (heap s) = heap s).
  { rewrite <- Hc, with_final_state_same. apply list_insert_id. exact H. }
  eexists. split; [reflexivity|]. split; [exact Hheap|].
  intros more timeout' task_run' st Hstore' Hlater.
  match goal with |- ∃ _, wait _ _ _ ?l = _ => set (later := l) in * end.
  assert (H' : heap later !! self = Some f).
  { subst later. cbn [heap]. rewrite Hheap. exact H. }
  rewrite (wait_miss w later self f timeout' H' Hc), Hstore'.
  destruct Hlater as [[-> <-] | [-> Hexec']].
  - eexists. reflexivity.
  - cbn zeta. rewrite Hexec'. eexists. reflexivity.
Qed.

Lemma wait_timeout_leaves_unresolved_witness :
  heap demo_state !! 2 = Some (fresh 3%N)
  ∧ _final_state (fresh 3%N) = None
  ∧ store_reply demo_world 0 (now demo_state) 3%N = Some {| state := running |}
  ∧ is_terminal running = false
  ∧ delegated demo_world demo_state (fresh 3%N) (Some (1 # 2)%Q) = None
  ∧ ∃ s', wait 2 (Some (1 # 2)%Q) demo_world demo_state = (Ok None, s')
          ∧ heap s' = heap demo_state
          ∧ ∃ s'', wait 2 None demo_world s' = (Ok (Some (completed "late")), s'').
Proof.
  repeat (split; [reflexivity|]).
  destruct (wait_timeout_leaves_unresolved demo_world demo_state 2 (fresh 3%N)
              (1 # 2)%Q {| state := running |} eq_refl eq_refl eq_refl eq_refl eq_refl)
    as (s' & Hwait & Hheap & Hlater).
  exists s'. split; [exact Hwait|]. split; [exact Hheap|].
  specialize (Hlater [] None {| state := running |} (completed "late")).
  cbn zeta in Hlater. rewrite app_nil_r in Hlater.
  destruct s' as [h t]. cbn [heap trace] in Hlater, Hheap.
  apply Hlater.
  - reflexivity.
  - right. split; [reflexivity|]. rewrite Hheap. reflexivity.
Defined.

(** ** Runs that the store does not know *)

(** C5, as stated, fails: a future that holds a final state answers from its
    cache even when the store has no run for its identifier. *)
Lemma wait_unknown_run_with_cache_returns :
  store_reply demo_world 0 (now resolved_state) 9%N = None
  ∧ wait 0 None demo_world resolved_state
    = (Ok (Some (completed "41")), resolved_state)
  ∧ ¬ (∀ (w : World) (s : St) (self : loc) (f : PrefectFuture)
         (timeout : option Timeout),
         heap s !! self = Some f →
         (∀ t, store_reply w (_client f) t (run_id f) = None) →
         ∃ s', wait self timeout w s = (Raise not_found, s')).
Proof.
  split; [reflexivity|]. split; [reflexivity|].
  intros claim.
  destruct (claim demo_world resolved_state 0
              (with_final_state (Some (completed "41")) (fresh 9%N)) None
              eq_refl (λ _, eq_refl)) as (s' & Hwait).
  discriminate Hwait.
Qed.

(** C5, amended: with an empty cache and a store that has no run for the
    identifier, every [wait] fails with the run-not-found error after a
    single store query, the executor is not asked, and the heap is left as it
    was, so that the calls that follow fail in the same way. *)
Theorem wait_unknown_run_fails (w : World) (s : St) (self : loc) (f : PrefectFuture)
    (timeouts : list (option Timeout)) :
  heap s !! self = Some f → _final_state f = None →
  (∀ t, store_reply w (_client f) t (run_id f) = None) →
  try_each (wait self) timeouts w s
  = (map (λ _, Raise (RuntimeError "Future has no associated task run in the server."))
       timeouts,
     {| heap := heap s;
        trace := trace s ++ map (λ _, EvReadTaskRun (_client f) (run_id f)) timeouts |}).
Proof.
  intros H Hc Hstore. revert s H.
  induction timeouts as [|timeout timeouts IH]; intros s H.
  - cbn. rewrite app_nil_r. destruct s; reflexivity.
  - cbn [try_each map].
    rewrite (wait_miss w s self f timeout H Hc), Hstore.
    rewrite (IH (emit (EvReadTaskRun (_client f) (run_id f)) s) H).
    cbn [emit heap trace]. rewrite <- app_assoc. reflexivity.
Qed.

Lemma wait_unknown_run_fails_witness :
  heap demo_state !! 4 = Some (fresh 9%N)
  ∧ _final_state (fresh 9%N) = None
  ∧ (∀ t, store_reply demo_world 0 t 9%N = None)
  ∧ try_each (wait 4) [None; Some (1 # 2)%Q] demo_world demo_state
    = ([Raise not_found; Raise not_found],
       {| heap := heap demo_state;
          trace := [EvReadTaskRun 0 9%N; EvReadTaskRun 0 9%N] |}).
Proof.
  split; [reflexivity|]. split; [reflexivity|]. split; [intros t; reflexivity|].
  apply (wait_unknown_run_fails demo_world demo_state 4 (fresh 9%N)
           [None; Some (1 # 2)%Q]); [reflexivity | reflexivity | intros t; reflexivity].
Defined.

(** ** Identity and hashing *)

Lemma init_run (w : World) (s : St) (run : UUID) (client : ClientRef)
    (executor : ExecutorRef) (final : option State) :
  __init__ run client executor final w s
  = (Ok (length (heap s)),
     {| heap := heap s ++ [ {| run_id := run; _client := client; _final_state := final;
                               _exception := None; _executor := executor |} ];
        trace := trace s |}).
Proof. reflexivity. Qed.

Lemma hash_run (w : World) (s : St) (self : loc) (f : PrefectFuture) :
  heap s !! self = Some f → __hash__ self w s = (Ok (hash_UUID (run_id f)), s).
Proof.
  intros H. unfold __hash__. rewrite bind_run, (attr_run w _ _ _ _ H). reflexivity.
Qed.

(** C3, as stated, fails: two futures built for the same run are two objects,
    and [==] between them is false. *)
Lemma same_run_id_futures_differ :
  (a ← __init__ 7%N 0 0 None; b ← __init__ 7%N 0 0 None; mret (a, b))
    demo_world {| heap := []; trace := [] |}
  = (Ok (0, 1), {| heap := [fresh 7%N; fresh 7%N]; trace := [] |})
  ∧ 0 ≠ 1 ∧ __eq__ 0 1 = false.
Proof. split; [reflexivity|]. split; [discriminate | reflexivity]. Qed.

(** C3, amended: two futures built one after the other for the same run id
    hash to the same value, the hash of the run id; [==] is identity, so each
    is equal to itself and the two, being distinct objects, are not equal. *)
Theorem same_run_id_same_hash (w : World) (s : St) (run : UUID)
    (client1 client2 : ClientRef) (executor1 executor2 : ExecutorRef)
    (final1 final2 : option State) :
  ∃ a b s',
    (a ← __init__ run client1 executor1 final1;
     b ← __init__ run client2 executor2 final2;
     mret (a, b)) w s = (Ok (a, b), s')
    ∧ a ≠ b
    ∧ __hash__ a w s' = (Ok (hash_UUID run), s')
    ∧ __hash__ b w s' = (Ok (hash_UUID run), s')
    ∧ __eq__ a a = true ∧ __eq__ b b = true ∧ __eq__ a b = false.
Proof.
  exists (length (heap s)), (S (length (heap s))). eexists.
  split.
  { rewrite bind_run, init_run, bind_run, init_run. cbn [heap].
    rewrite length_app. cbn [length].
    replace (length (heap s) + 1) with (S (length (heap s))) by lia.
    reflexivity. }
  split; [lia|]. cbn [heap trace].
  set (f1 := {| run_id := run; _client := client1; _final_state := final1;
                _exception := None; _executor := executor1 |}).
  set (f2 := {| run_id := run; _client := client2; _final_state := final2;
                _exception := None; _executor := executor2 |}).
  split.
  { apply (hash_run w _ _ f1). cbn [heap].
    rewrite <- app_assoc. rewrite lookup_app_r by lia.
    rewrite Nat.sub_diag. reflexivity. }
  split.
  { apply (hash_run w _ _ f2). cbn [heap].
    rewrite lookup_app_r by (rewrite length_app; cbn; lia).
    rewrite length_app. cbn [length].
    replace (S (length (heap s)) - (length (heap s) + 1)) with 0 by lia.
    reflexivity. }
  unfold __eq__. rewrite !Nat.eqb_refl. split; [reflexivity|]. split; [reflexivity|].
  apply Nat.eqb_neq. lia.
Qed.

(** ** What the calls change *)

(** One call on a future: the other fields stay, the other futures stay, and
    [_final_state] changes only when it was empty and the call is a [wait],
    to the very value that this [wait] returns. *)
Lemma perform_frame (w : World) (s s' : St) (self : loc) (f : PrefectFuture) (c : Call)
    (r : Res (option State)) :
  heap s !! self = Some f →
  perform self c w s = (r, s') →
  ∃ f', heap s' !! self = Some f'
        ∧ f' = with_final_state (_final_state f') f
        ∧ (∀ l, l ≠ self → heap s' !! l = heap s !! l)
        ∧ (_final_state f' = _final_state f
           ∨ (_final_state f = None
              ∧ ∃ timeout, c = CallWait timeout ∧ r = Ok (_final_state f'))).
Proof.
  intros H Hrun.
  assert (Hsame : ∀ e, ∃ f', heap (emit e s) !! self = Some f'
      ∧ f' = with_final_state (_final_state f') f
      ∧ (∀ l, l ≠ self → heap (emit e s) !! l = heap s !! l)
      ∧ (_final_state f' = _final_state f
         ∨ (_final_state f = None
            ∧ ∃ timeout, c = CallWait timeout ∧ r = Ok (_final_state f')))).
  { intros e. exists f. cbn [emit heap].
    split; [exact H|]. split; [symmetry; apply with_final_state_same|].
    split; [reflexivity | left; reflexivity]. }
  destruct c as [timeout|]; cbn [perform] in Hrun.
  - destruct (_final_state f) as [st|] eqn:Hc.
    + rewrite (wait_hit w s self f st timeout H Hc) in Hrun.
      injection Hrun as <- <-. exists f.
      split; [exact H|]. split; [symmetry; apply with_final_state_same|].
      split; [reflexivity | left; exact Hc].
    + rewrite (wait_miss w s self f timeout H Hc) in Hrun.
      destruct (store_reply w (_client f) (now s) (run_id f)) as [task_run|].
      * destruct (ready (state task_run)).
        -- injection Hrun as <- <-. apply Hsame.
        -- cbn zeta in Hrun. injection Hrun as <- <-.
           exists (with_final_state (delegated w s f timeout) f). cbn [heap].
           split.
           { apply list_lookup_insert_eq. eapply lookup_lt_Some. exact H. }
           split; [reflexivity|].
           split.
           { intros l Hl. apply list_lookup_insert_ne. congruence. }
           right. split; [reflexivity|]. exists timeout. split; reflexivity.
      * injection Hrun as <- <-. apply Hsame.
  - rewrite bind_run, (get_state_run w s self f H) in Hrun.
    destruct (store_reply w (_client f) (now s) (run_id f)) as [task_run|];
      injection Hrun as <- <-; apply Hsame.
Qed.

(** C10: whatever calls to [wait] and [get_state] are made on a future, and
    whatever they return or raise, its [run_id], [_client], [_executor] and
    [_exception] are afterwards what they were, and [_final_state] is either
    what it was or, having been empty, the value that one of the [wait] calls
    returned.  The other futures of the heap are not touched. *)
Theorem calls_only_fill_final_state (w : World) (calls : list Call) (s s' : St)
    (self : loc) (f : PrefectFuture) (rs : list (Res (option State))) :
  heap s !! self = Some f →
  try_each (perform self) calls w s = (rs, s') →
  ∃ f', heap s' !! self = Some f'
        ∧ run_id f' = run_id f
        ∧ _client f' = _client f
        ∧ _executor f' = _executor f
        ∧ _exception f' = _exception f
        ∧ (_final_state f' = _final_state f
           ∨ (_final_state f = None
              ∧ ∃ timeout, (CallWait timeout, Ok (_final_state f')) ∈ zip calls rs))
        ∧ ∀ l, l ≠ self → heap s' !! l = heap s !! l.
Proof.
  revert s f rs. induction calls as [|c calls IH]; intros s f rs H Hrun.
  - cbn in Hrun. injection Hrun as <- <-. exists f. repeat split; auto.
  - cbn [try_each] in Hrun.
    destruct (perform self c w s) as [r s1] eqn:Hstep.
    destruct (try_each (perform self) calls w s1) as [rs' s2] eqn:Hrest.
    injection Hrun as <- <-.
    destruct (perform_frame w s s1 self f c r H Hstep)
      as (f1 & H1 & Hf1 & Hothers1 & Hcache1).
    destruct (IH s1 f1 rs' H1 Hrest)
      as (f2 & H2 & Hrun2 & Hclient2 & Hexecutor2 & Hexception2 & Hcache2 & Hothers2).
    exists f2. split; [exact H2|].
    rewrite Hrun2, Hclient2, Hexecutor2, Hexception2, Hf1. cbn.
    repeat (split; [reflexivity|]).
    split.
    + destruct Hcache2 as [Hsame2 | (Hnone1 & timeout & Hin)].
      * destruct Hcache1 as [Hsame1 | (Hnone & timeout & -> & ->)].
        -- left. congruence.
        -- right. split; [exact Hnone|]. exists timeout.
           rewrite Hsame2. cbn [zip zip_with]. apply list_elem_of_here.
      * right. split.
        -- destruct Hcache1 as [Hsame1 | (Hnone & _)]; congruence.
        -- exists timeout. cbn [zip zip_with]. apply list_elem_of_further. exact Hin.
    + intros l Hl. rewrite (Hothers2 l Hl). apply Hothers1. exact Hl.
Qed.

Lemma calls_only_fill_final_state_witness :
  heap demo_state !! 2 = Some (fresh 3%N)
  ∧ try_each (perform 2) [CallGetState; CallWait (Some (1 # 2)%Q); CallWait None; CallGetState]
      demo_world demo_state
    = ([Ok (Some running); Ok None; Ok (Some (completed "late")); Ok (Some running)],
       {| heap := <[2 := with_final_state (Some (completed "late")) (fresh 3%N)]>
                    (heap demo_state);
          trace := [EvReadTaskRun 0 3%N;
                    EvReadTaskRun 0 3%N; EvExecutorWait 0 3%N (Some (1 # 2)%Q);
                    EvReadTaskRun 0 3%N; EvExecutorWait 0 3%N None;
                    EvReadTaskRun 0 3%N] |})
  ∧ ∃ f', <[2 := with_final_state (Some (completed "late")) (fresh 3%N)]>
            (heap demo_state) !! 2 = Some f'
          ∧ run_id f' = 3%N ∧ _client f' = 0 ∧ _executor f' = 0 ∧ _exception f' = None.
Proof.
  split; [reflexivity|]. split; [reflexivity|].
  destruct (calls_only_fill_final_state demo_world
              [CallGetState; CallWait (Some (1 # 2)%Q); CallWait None; CallGetState]
              demo_state _ 2 (fresh 3%N) _ eq_refl eq_refl)
    as (f' & Hf' & Hrun & Hclient & Hexecutor & Hexception & _).
  exists f'. repeat split; assumption.
Defined.

(** ** Construction and delegation *)

(** X1: a new future sits at a fresh location and holds the arguments of
    [__init__], with [_exception] empty; the futures that existed stay where
    and what they were, and no collaborator is asked. *)
Theorem init_stores_arguments (w : World) (s : St) (run : UUID) (client : ClientRef)
    (executor : ExecutorRef) (final : option State) :
  ∃ self s',
    __init__ run client executor final w s = (Ok self, s')
    ∧ heap s !! self = None
    ∧ heap s' !! self = Some {| run_id := run; _client := client; _final_state := final;
                                _exception := None; _executor := executor |}
    ∧ (∀ l f, heap s !! l = Some f → heap s' !! l = Some f)
    ∧ trace s' = trace s.
Proof.
  exists (length (heap s)). eexists. split; [apply init_run|]. cbn [heap trace].
  split; [apply lookup_ge_None; lia|].
  split; [rewrite lookup_app_r by lia; rewrite Nat.sub_diag; reflexivity|].
  split; [|reflexivity].
  intros l f Hl. rewrite lookup_app_l; [exact Hl|]. eapply lookup_lt_Some. exact Hl.
Qed.

(** X2: with an empty cache and a status in the store that is not handed back
    (not completed or failed, or without data), [wait] asks the executor
    once, with the timeout it was given, stores what the executor answers,
    a status or nothing, in [_final_state], and returns it. *)
Theorem wait_delegates_to_executor (w : World) (s : St) (self : loc) (f : PrefectFuture)
    (timeout : option Timeout) (task_run : TaskRun) :
  heap s !! self = Some f → _final_state f = None →
  store_reply w (_client f) (now s) (run_id f) = Some task_run →
  (is_completed (state task_run) || is_failed (state task_run))
    && truthy (data (state task_run)) = false →
  wait self timeout w s
  = (Ok (executor_reply w (_executor f) (S (now s)) f timeout),
     {| heap := <[self := with_final_state
                            (executor_reply w (_executor f) (S (now s)) f timeout) f]>
                  (heap s);
        trace := trace s ++ [EvReadTaskRun (_client f) (run_id f);
                             EvExecutorWait (_executor f) (run_id f) timeout] |}).
Proof.
  intros H Hc Hstore Hready.
  rewrite (wait_miss w s self f timeout H Hc), Hstore.
  unfold ready. rewrite Hready. cbn zeta. unfold delegated.
  rewrite <- app_assoc. reflexivity.
Qed.

Lemma wait_delegates_to_executor_witness :
  heap demo_state !! 3 = Some (fresh 4%N)
  ∧ _final_state (fresh 4%N) = None
  ∧ store_reply demo_world 0 (now demo_state) 4%N = Some {| state := cancelled "stop" |}
  ∧ (is_completed (cancelled "stop") || is_failed (cancelled "stop"))
      && truthy (data (cancelled "stop")) = false
  ∧ wait 3 None demo_world demo_state
    = (Ok (Some (cancelled "stop")),
       {| heap := <[3 := with_final_state (Some (cancelled "stop")) (fresh 4%N)]>
                    (heap demo_state);
          trace := [EvReadTaskRun 0 4%N; EvExecutorWait 0 4%N None] |}).
Proof.
  repeat (split; [reflexivity|]).
  apply (wait_delegates_to_executor demo_world demo_state 3 (fresh 4%N) None
           {| state := cancelled "stop" |}); reflexivity.
Defined.

(** ** One call, and the calls that follow *)

(** X3: what a single [wait] does, case by case.  With a filled cache it
    returns the cached status and touches nothing.  With an empty cache it
    asks the store once; if the store has no run it raises the run-not-found
    error; if the store reports a status that is completed or failed and has
    data it returns that very status; in both cases the heap stays as it
    was.  Otherwise it asks the executor once, after the store, with the
    timeout as given, stores the executor's answer in [_final_state] and
    returns it.  There is no other case: a [wait] raises nothing else and
    asks neither collaborator twice. *)
Theorem wait_io_discipline (w : World) (s s' : St) (self : loc) (f : PrefectFuture)
    (timeout : option Timeout) (r : Res (option State)) :
  heap s !! self = Some f →
  wait self timeout w s = (r, s') →
  (∃ st, _final_state f = Some st ∧ r = Ok (Some st) ∧ s' = s)
  ∨ (_final_state f = None
     ∧ store_reply w (_client f) (now s) (run_id f) = None
     ∧ r = Raise (RuntimeError "Future has no associated task run in the server.")
     ∧ s' = {| heap := heap s;
               trace := trace s ++ [EvReadTaskRun (_client f) (run_id f)] |})
  ∨ (_final_state f = None
     ∧ ∃ task_run,
         store_reply w (_client f) (now s) (run_id f) = Some task_run
         ∧ (is_completed (state task_run) || is_failed (state task_run))
             && truthy (data (state task_run)) = true
         ∧ r = Ok (Some (state task_run))
         ∧ s' = {| heap := heap s;
                   trace := trace s ++ [EvReadTaskRun (_client f) (run_id f)] |})
  ∨ (_final_state f = None
     ∧ ∃ task_run,
         store_reply w (_client f) (now s) (run_id f) = Some task_run
         ∧ (is_completed (state task_run) || is_failed (state task_run))
             && truthy (data (state task_run)) = false
         ∧ r = Ok (executor_reply w (_executor f) (S (now s)) f timeout)
         ∧ s' = {| heap := <[self := with_final_state
                                        (executor_reply w (_executor f) (S (now s)) f timeout)
                                        f]> (heap s);
                   trace := trace s ++ [EvReadTaskRun (_client f) (run_id f);
                                        EvExecutorWait (_executor f) (run_id f) timeout] |}).
Proof.
  intros H Hrun. destruct (_final_state f) as [st|] eqn:Hc.
  - left. rewrite (wait_hit w s self f st timeout H Hc) in Hrun.
    injection Hrun as <- <-. exists st. auto.
  - right. rewrite (wait_miss w s self f timeout H Hc) in Hrun.
    destruct (store_reply w (_client f) (now s) (run_id f)) as [task_run|].
    + right. destruct (ready (state task_run)) eqn:Hready.
      * left. injection Hrun as <- <-. split; [reflexivity|].
        exists task_run. repeat split; [exact Hready].
      * right. cbn zeta in Hrun. injection Hrun as <- <-. split; [reflexivity|].
        exists task_run. split; [reflexivity|]. split; [exact Hready|].
        split; [reflexivity|]. unfold delegated. rewrite <- app_assoc. reflexivity.
    + left. injection Hrun as <- <-. repeat split; reflexivity.
Qed.

Lemma wait_io_discipline_witness :
  heap demo_state !! 2 = Some (fresh 3%N)
  ∧ wait 2 None demo_world demo_state
    = (Ok (Some (completed "late")),
       {| heap := <[2 := with_final_state (Some (completed "late")) (fresh 3%N)]>
                    (heap demo_state);
          trace := [EvReadTaskRun 0 3%N; EvExecutorWait 0 3%N None] |})
  ∧ ∃ task_run,
      store_reply demo_world 0 (now demo_state) 3%N = Some task_run
      ∧ (is_completed (state task_run) || is_failed (state task_run))
          && truthy (data (state task_run)) = false
      ∧ Ok (Some (completed "late"))
        = Ok (executor_reply demo_world 0 (S (now demo_state)) (fresh 3%N) None).
Proof.
  split; [reflexivity|]. split; [reflexivity|].
  destruct (wait_io_discipline demo_world demo_state _ 2 (fresh 3%N) None _
              eq_refl eq_refl)
    as [(st & Hcache & _)
       | [(_ & Hstore & _)
         | [(_ & task_run & _ & _ & _ & Hstate)
           | (_ & task_run & Hstore & Hguard & Hr & _)]]].
  - discriminate Hcache.
  - discriminate Hstore.
  - discriminate Hstate.
  - exists task_run. split; [exact Hstore|]. split; [exact Hguard | exact Hr].
Defined.

(** X4: once a [wait] has gone to the executor and got a status from it,
    every [wait] that follows, whatever its timeout, returns that status
    and asks nobody. *)
Theorem wait_keeps_executor_result (w : World) (s : St) (self : loc) (f : PrefectFuture)
    (timeout : option Timeout) (task_run : TaskRun) (st : State)
    (timeouts : list (option Timeout)) :
  heap s !! self = Some f → _final_state f = None →
  store_reply w (_client f) (now s) (run_id f) = Some task_run →
  (is_completed (state task_run) || is_failed (state task_run))
    && truthy (data (state task_run)) = false →
  executor_reply w (_executor f) (S (now s)) f timeout = Some st →
  ∃ s1, try_each (wait self) (timeout :: timeouts) w s
        = (Ok (Some st) :: map (λ _, Ok (Some st)) timeouts, s1)
        ∧ trace s1 = trace s ++ [EvReadTaskRun (_client f) (run_id f);
                                 EvExecutorWait (_executor f) (run_id f) timeout].
Proof.
  intros H Hc Hstore Hready Hexec. cbn [try_each].
  rewrite (wait_miss w s self f timeout H Hc), Hstore.
  unfold ready. rewrite Hready. cbn zeta. unfold delegated. rewrite Hexec.
  set (s1 := {| heap := <[self := with_final_state (Some st) f]> (heap s); trace := _ |}).
  assert (H1 : heap s1 !! self = Some (with_final_state (Some st) f)).
  { apply list_lookup_insert_eq. eapply lookup_lt_Some. exact H. }
  assert (Hrest : ∀ ts, try_each (wait self) ts w s1 = (map (λ _, Ok (Some st)) ts, s1)).
  { induction ts as [|t ts IH]; [reflexivity|]. cbn [try_each map].
    rewrite (wait_hit w s1 self _ st t H1 eq_refl), IH. reflexivity. }
  rewrite Hrest. exists s1. split; [reflexivity|].
  subst s1. cbn [trace]. rewrite <- app_assoc. reflexivity.
Qed.

Lemma wait_keeps_executor_result_witness :
  heap demo_state !! 2 = Some (fresh 3%N)
  ∧ _final_state (fresh 3%N) = None
  ∧ store_reply demo_world 0 (now demo_state) 3%N = Some {| state := running |}
  ∧ (is_completed running || is_failed running) && truthy (data running) = false
  ∧ executor_reply demo_world 0 (S (now demo_state)) (fresh 3%N) None
    = Some (completed "late")
  ∧ ∃ s1, try_each (wait 2) [None; Some (1 # 2)%Q; None] demo_world demo_state
          = ([Ok (Some (completed "late")); Ok (Some (completed "late"));
              Ok (Some (completed "late"))], s1)
          ∧ trace s1 = [EvReadTaskRun 0 3%N; EvExecutorWait 0 3%N None].
Proof.
  repeat (split; [reflexivity|]).
  apply (wait_keeps_executor_result demo_world demo_state 2 (fresh 3%N) None
           {| state := running |} (completed "late") [Some (1 # 2)%Q; None]);
    reflexivity.
Defined.

(** X5: a status that [wait] hands back straight from the store is not kept.
    The next [wait] asks the store again and returns what it reports then,
    which may be another status. *)
Theorem wait_asks_the_store_again (w : World) (s : St) (self : loc) (f : PrefectFuture)
    (timeout1 timeout2 : option Timeout) (first second : TaskRun) :
  heap s !! self = Some f → _final_state f = None →
  store_reply w (_client f) (now s) (run_id f) = Some first →
  (is_completed (state first) || is_failed (state first))
    && truthy (data (state first)) = true →
  store_reply w (_client f) (S (now s)) (run_id f) = Some second →
  (is_completed (state second) || is_failed (state second))
    && truthy (data (state second)) = true →
  try_each (wait self) [timeout1; timeout2] w s
  = ([Ok (Some (state first)); Ok (Some (state second))],
     {| heap := heap s;
        trace := trace s ++ [EvReadTaskRun (_client f) (run_id f);
                             EvReadTaskRun (_client f) (run_id f)] |}).
Proof.
  intros H Hc Hfirst Hready1 Hsecond Hready2. cbn [try_each].
  rewrite (wait_miss w s self f timeout1 H Hc), Hfirst.
  unfold ready. rewrite Hready1.
  set (s1 := emit (EvReadTaskRun (_client f) (run_id f)) s).
  assert (H1 : heap s1 !! self = Some f) by exact H.
  rewrite (wait_miss w s1 self f timeout2 H1 Hc).
  subst s1. rewrite now_emit, Hsecond. unfold ready. rewrite Hready2.
  unfold emit. cbn [heap trace]. rewrite <- app_assoc. reflexivity.
Qed.

Lemma wait_asks_the_store_again_witness :
  heap lone_state_later !! 0 = Some (fresh 1%N)
  ∧ _final_state (fresh 1%N) = None
  ∧ store_reply changing_world 0 (now lone_state_later) 1%N
    = Some {| state := completed "first" |}
  ∧ store_reply changing_world 0 (S (now lone_state_later)) 1%N
    = Some {| state := failed "second" |}
  ∧ try_each (wait 0) [None; None] changing_world lone_state_later
    = ([Ok (Some (completed "first")); Ok (Some (failed "second"))],
       {| heap := [fresh 1%N];
          trace := [EvReadTaskRun 0 1%N; EvReadTaskRun 0 1%N; EvReadTaskRun 0 1%N] |}).
Proof.
  repeat (split; [reflexivity|]).
  apply (wait_asks_the_store_again changing_world lone_state_later 0 (fresh 1%N)
           None None {| state := completed "first" |} {| state := failed "second" |});
    reflexivity.
Defined.

(** X6: the run-not-found error is not kept either.  When the store has no
    run at the first [wait] and a ready status at the second, the first call
    raises and the second returns that status; the future is unchanged
    throughout. *)
Theorem wait_recovers_from_not_found (w : World) (s : St) (self : loc) (f : PrefectFuture)
    (timeout1 timeout2 : option Timeout) (task_run : TaskRun) :
  heap s !! self = Some f → _final_state f = None →
  store_reply w (_client f) (now s) (run_id f) = None →
  store_reply w (_client f) (S (now s)) (run_id f) = Some task_run →
  (is_completed (state task_run) || is_failed (state task_run))
    && truthy (data (state task_run)) = true →
  try_each (wait self) [timeout1; timeout2] w s
  = ([Raise (RuntimeError "Future has no associated task run in the server.");
      Ok (Some (state task_run))],
     {| heap := heap s;
        trace := trace s ++ [EvReadTaskRun (_client f) (run_id f);
                             EvReadTaskRun (_client f) (run_id f)] |}).
Proof.
  intros H Hc Hnone Hsome Hready. cbn [try_each].
  rewrite (wait_miss w s self f timeout1 H Hc), Hnone.
  set (s1 := emit (EvReadTaskRun (_client f) (run_id f)) s).
  assert (H1 : heap s1 !! self = Some f) by exact H.
  rewrite (wait_miss w s1 self f timeout2 H1 Hc).
  subst s1. rewrite now_emit, Hsome. unfold ready. rewrite Hready.
  unfold emit. cbn [heap trace]. rewrite <- app_assoc. reflexivity.
Qed.

Lemma wait_recovers_from_not_found_witness :
  heap lone_state !! 0 = Some (fresh 1%N)
  ∧ _final_state (fresh 1%N) = None
  ∧ store_reply changing_world 0 (now lone_state) 1%N = None
  ∧ store_reply changing_world 0 (S (now lone_state)) 1%N
    = Some {| state := completed "first" |}
  ∧ try_each (wait 0) [None; Some (1 # 2)%Q] changing_world lone_state
    = ([Raise not_found; Ok (Some (completed "first"))],
       {| heap := [fresh 1%N]; trace := [EvReadTaskRun 0 1%N; EvReadTaskRun 0 1%N] |}).
Proof.
  repeat (split; [reflexivity|]).
  apply (wait_recovers_from_not_found changing_world lone_state 0 (fresh 1%N)
           None (Some (1 # 2)%Q) {| state := completed "first" |});
    reflexivity.
Defined.

Lemma calls_keep_fields (w : World) (calls : list Call) (s s' : St) (self : loc)
    (f : PrefectFuture) (rs : list (Res (option State))) :
  heap s !! self = Some f →
  try_each (perform self) calls w s = (rs, s') →
  ∃ f', heap s' !! self = Some f' ∧ f' = with_final_state (_final_state f') f.
Proof.
  revert s f rs. induction calls as [|c calls IH]; intros s f rs H Hrun.
  - cbn in Hrun. injection Hrun as <- <-. exists f.
    split; [exact H | symmetry; apply with_final_state_same].
  - cbn [try_each] in Hrun.
    destruct (perform self c w s) as [r s1] eqn:Hstep.
    destruct (try_each (perform self) calls w s1) as [rs' s2] eqn:Hrest.
    injection Hrun as <- <-.
    destruct (perform_frame w s s1 self f c r H Hstep) as (f1 & H1 & Hf1 & _).
    destruct (IH s1 f1 rs' H1 Hrest) as (f2 & H2 & Hf2).
    exists f2. split; [exact H2|]. rewrite Hf2 at 1. rewrite Hf1. reflexivity.
Qed.

(** X7: the hash of a future is the hash of its run id and does not change
    over the life of the future: after any calls to [wait] and [get_state],
    whatever they did to the cache, [__hash__] gives what it gave before. *)
Theorem hash_is_stable (w : World) (calls : list Call) (s s' : St) (self : loc)
    (f : PrefectFuture) (rs : list (Res (option State))) :
  heap s !! self = Some f →
  try_each (perform self) calls w s = (rs, s') →
  __hash__ self w s = (Ok (hash_UUID (run_id f)), s)
  ∧ __hash__ self w s' = (Ok (hash_UUID (run_id f)), s').
Proof.
  intros H Hrun. split; [apply hash_run; exact H|].
  destruct (calls_keep_fields w calls s s' self f rs H Hrun) as (f' & H' & Hf').
  rewrite (hash_run w s' self f' H'), Hf'. reflexivity.
Qed.

Lemma hash_is_stable_witness :
  heap demo_state !! 2 = Some (fresh 3%N)
  ∧ try_each (perform 2) [CallWait None; CallGetState] demo_world demo_state
    = ([Ok (Some (completed "late")); Ok (Some running)],
       {| heap := <[2 := with_final_state (Some (completed "late")) (fresh 3%N)]>
                    (heap demo_state);
          trace := [EvReadTaskRun 0 3%N; EvExecutorWait 0 3%N None; EvReadTaskRun 0 3%N] |})
  ∧ __hash__ 2 demo_world demo_state = (Ok 3%Z, demo_state)
  ∧ __hash__ 2 demo_world
      {| heap := <[2 := with_final_state (Some (completed "late")) (fresh 3%N)]>
                   (heap demo_state);
         trace := [EvReadTaskRun 0 3%N; EvExecutorWait 0 3%N None; EvReadTaskRun 0 3%N] |}
    = (Ok 3%Z,
       {| heap := <[2 := with_final_state (Some (completed "late")) (fresh 3%N)]>
                    (heap demo_state);
          trace := [EvReadTaskRun 0 3%N; EvExecutorWait 0 3%N None; EvReadTaskRun 0 3%N] |}).
Proof.
  split; [reflexivity|]. split; [reflexivity|].
  apply (hash_is_stable demo_world [CallWait None; CallGetState] demo_state _ 2
           (fresh 3%N) _ eq_refl eq_refl).
Defined.

(** X8: the cache belongs to the object, not to the run.  A [wait] on one
    future leaves every other future as it was, one built for the same run
    included; if that other future is unresolved, a [wait] on it starts with
    a store query of its own. *)
Theorem caches_are_per_object (w : World) (s s' : St) (a b : loc)
    (fa fb : PrefectFuture) (timeout : option Timeout) (r : Res (option State)) :
  a ≠ b →
  heap s !! a = Some fa → heap s !! b = Some fb → _final_state fb = None →
  wait a timeout w s = (r, s') →
  heap s' !! b = Some fb
  ∧ ∀ timeout' r' s'', wait b timeout' w s' = (r', s'') →
      ∃ more, trace s'' = trace s' ++ EvReadTaskRun (_client fb) (run_id fb) :: more.
Proof.
  intros Hab Ha Hb Hc Hrun.
  destruct (perform_frame w s s' a fa (CallWait timeout) r Ha Hrun)
    as (_ & _ & _ & Hothers & _).
  assert (Hb' : heap s' !! b = Some fb).
  { rewrite (Hothers b) by congruence. exact Hb. }
  split; [exact Hb'|].
  intros timeout' r' s'' Hrun'.
  rewrite (wait_miss w s' b fb timeout' Hb' Hc) in Hrun'.
  destruct (store_reply w (_client fb) (now s') (run_id fb)) as [task_run|].
  - destruct (ready (state task_run)).
    + injection Hrun' as _ <-. exists []. reflexivity.
    + cbn zeta in Hrun'. injection Hrun' as _ <-. eexists. cbn [trace].
      rewrite <- app_assoc. reflexivity.
  - injection Hrun' as _ <-. exists []. reflexivity.
Qed.

Lemma caches_are_per_object_witness :
  0 ≠ 1
  ∧ heap twin_state !! 0 = Some (fresh 3%N)
  ∧ heap twin_state !! 1 = Some (fresh 3%N)
  ∧ _final_state (fresh 3%N) = None
  ∧ wait 0 None demo_world twin_state
    = (Ok (Some (completed "late")),
       {| heap := [with_final_state (Some (completed "late")) (fresh 3%N); fresh 3%N];
          trace := [EvReadTaskRun 0 3%N; EvExecutorWait 0 3%N None] |})
  ∧ [with_final_state (Some (completed "late")) (fresh 3%N); fresh 3%N] !! 1
    = Some (fresh 3%N).
Proof.
  split; [discriminate|]. repeat (split; [reflexivity|]).
  apply (caches_are_per_object demo_world twin_state _ 0 1 (fresh 3%N) (fresh 3%N) None _
           ltac:(discriminate) eq_refl eq_refl eq_refl eq_refl).
Defined.

(** X9: [get_state] only looks.  However often it is called, each call asks
    the store once and returns what the store reports at that moment, or
    raises the run-not-found error, and the future, its cache included, stays
    as it was. *)
Theorem get_state_never_resolves (w : World) (n : nat) (s : St) (self : loc)
    (f : PrefectFuture) :
  heap s !! self = Some f →
  ∃ rs, try_each (λ _ : unit, get_state self) (replicate n tt) w s
        = (rs, {| heap := heap s;
                  trace := trace s ++ replicate n (EvReadTaskRun (_client f) (run_id f)) |})
        ∧ length rs = n
        ∧ ∀ i r, rs !! i = Some r →
            r = match store_reply w (_client f) (now s + i) (run_id f) with
                | Some task_run => Ok (state task_run)
                | None => Raise (RuntimeError "Future has no associated task run in the server.")
                end.
Proof.
  revert s. induction n as [|n IH]; intros s H.
  - exists []. cbn. rewrite app_nil_r. destruct s.
    split; [reflexivity|]. split; [reflexivity|].
    intros i r Hi. rewrite lookup_nil in Hi. discriminate Hi.
  - destruct (IH (emit (EvReadTaskRun (_client f) (run_id f)) s) H) as (rs & Hrun & Hlen & Hrs).
    eexists. cbn [replicate try_each]. rewrite (get_state_run w s self f H), Hrun.
    split; [|split].
    + cbn [emit heap trace]. rewrite <- app_assoc. reflexivity.
    + cbn. rewrite Hlen. reflexivity.
    + intros [|i] r Hi.
      * cbn in Hi. injection Hi as <-. rewrite Nat.add_0_r. reflexivity.
      * cbn in Hi. rewrite (Hrs i r Hi), now_emit.
        replace (S (now s) + i) with (now s + S i) by lia. reflexivity.
Qed.

Lemma get_state_never_resolves_witness :
  heap lone_state !! 0 = Some (fresh 1%N)
  ∧ ∃ rs, try_each (λ _ : unit, get_state 0) (replicate 3 tt) changing_world lone_state
          = (rs, {| heap := heap lone_state;
                    trace := [EvReadTaskRun 0 1%N; EvReadTaskRun 0 1%N;
                              EvReadTaskRun 0 1%N] |})
          ∧ rs !! 0 = Some (Raise not_found)
          ∧ rs !! 1 = Some (Ok (completed "first"))
          ∧ rs !! 2 = Some (Ok (failed "second")).
Proof.
  split; [reflexivity|].
  destruct (get_state_never_resolves changing_world 3 lone_state 0 (fresh 1%N) eq_refl)
    as (rs & Hrun & _ & _).
  exists rs. split; [exact Hrun|].
  injection Hrun as <-. repeat split; reflexivity.
Defined.

(** ** Importing the module *)

Lemma first_unbound_head (globals : list string) (x : string) (reads : list string) :
  is_bound globals x = false → first_unbound globals (x :: reads) = Some x.
Proof. intros H. cbn [first_unbound]. rewrite H. reflexivity. Qed.

(** Were [Union] among the names imported from [typing], the body would run
    to its end and bind both functions: the missing import is all that is
    wrong. *)
Example module_runs_with_Union :
  exec_module ["Union"] futures_module
  = (Ok tt, "Union" :: globals_after_class
              ++ ["resolve_futures_to_data"; "resolve_futures_to_states"]).
Proof. reflexivity. Qed.

(** C7: the module body, run from an empty namespace, binds the names it
    imports, [R] and the class [PrefectFuture], and then stops with
    [NameError] on [Union], the first name that the signature of
    [resolve_futures_to_data] reads (line 134): [Union] is not among the names
    imported at lines 8-18.  Neither [resolve_futures_to_data] nor
    [resolve_futures_to_states] is bound, so there is nothing to call, on a
    structure with a failed future or on any other. *)
Theorem module_body_raises_name_error :
  exec_module [] futures_module = (Raise (NameError "Union"), globals_after_class)
  ∧ is_bound globals_after_class "PrefectFuture" = true
  ∧ is_bound globals_after_class "Union" = false
  ∧ is_bound globals_after_class "resolve_futures_to_data" = false
  ∧ is_bound globals_after_class "resolve_futures_to_states" = false.
Proof. repeat split; reflexivity. Qed.

(** C9: in whatever namespace [Union] is not bound, the [def] of
    [resolve_futures_to_data] raises [NameError] on [Union] and binds
    nothing: the function that would rebuild a structure does not come into
    being. *)
Theorem resolve_futures_to_data_def_raises (globals : list string) :
  is_bound globals "Union" = false →
  exec_stmt globals def_resolve_futures_to_data = Raise (NameError "Union").
Proof.
  intros H. unfold def_resolve_futures_to_data, exec_stmt.
  rewrite (first_unbound_head globals "Union" _ H). reflexivity.
Qed.

Lemma resolve_futures_to_data_def_raises_witness :
  is_bound globals_after_class "Union" = false
  ∧ exec_stmt globals_after_class def_resolve_futures_to_data = Raise (NameError "Union").
Proof.
  split; [reflexivity|].
  apply (resolve_futures_to_data_def_raises globals_after_class). reflexivity.
Defined.

(** C8: in whatever namespace [Union] is not bound, the two [def]s that end
    the module bind neither function: the run stops at the first with
    [NameError] on [Union], and the second, run on its own, stops in the
    same way.  No call of either function, on a structure without futures or
    on any other, can return. *)
Theorem resolve_functions_are_not_bound (globals : list string) :
  is_bound globals "Union" = false →
  exec_module globals [def_resolve_futures_to_data; def_resolve_futures_to_states]
  = (Raise (NameError "Union"), globals)
  ∧ exec_module globals [def_resolve_futures_to_states]
    = (Raise (NameError "Union"), globals).
Proof.
  intros H. unfold def_resolve_futures_to_data, def_resolve_futures_to_states.
  cbn [exec_module exec_stmt].
  rewrite !(first_unbound_head globals "Union" _ H). split; reflexivity.
Qed.

Lemma resolve_functions_are_not_bound_witness :
  is_bound globals_after_class "Union" = false
  ∧ exec_module globals_after_class
      [def_resolve_futures_to_data; def_resolve_futures_to_states]
    = (Raise (NameError "Union"), globals_after_class)
  ∧ exec_module globals_after_class [def_resolve_futures_to_states]
    = (Raise (NameError "Union"), globals_after_class).
Proof.
  split; [reflexivity|].
  apply (resolve_functions_are_not_bound globals_after_class). reflexivity.
Defined.
